(** * A model of the SMS / Telegram bridge [sms16公版测试版.py]

    The program keeps one global smpplib client ([client]), a keep-alive
    thread ([smpp_keep_alive]), an outbound dispatcher ([send_sms]), the
    Telegram front end ([handle_message]), the smpplib receive callback
    ([handle_incoming_sms]) and the queue consumer
    ([process_incoming_messages]).

    Python values are modelled as follows:
    - a Python [str] is its list of code points ([list Z]);
    - a Python [bytes] value is its list of byte values ([list Z], each in
      [0, 255]);
    - calls into smpplib and python-telegram-bot are observable events; their
      success or failure is an input of the model (an oracle), since they
      depend on the network.

    Effects are written in a small state / exception / trace monad: a call
    reads and writes a piece of global state (the [client] handle or the
    [message_queue]), may raise a Python exception, and appends the events it
    performs. *)

From Stdlib Require Import ZArith List Bool String Lia.
Import ListNotations.
Open Scope Z_scope.

(** ** Python exceptions that the modelled code can raise or catch *)

Inductive pyexn : Type :=
| ConnectionError         (* smpplib.exceptions.ConnectionError *)
| PDUError                (* smpplib.exceptions.PDUError *)
| AttributeError          (* attribute lookup on None *)
| UnboundLocalError       (* reading a local not yet assigned *)
| UnicodeEncodeError      (* str.encode on a lone surrogate *)
| ValueError              (* tuple unpacking of the wrong length *)
| TelegramError           (* telegram.error.* from bot.send_message *)
| Empty.                  (* queue.Empty from Queue.get(timeout=1) *)

Definition pyexn_eqb (a b : pyexn) : bool :=
  match a, b with
  | ConnectionError, ConnectionError | PDUError, PDUError
  | AttributeError, AttributeError | UnboundLocalError, UnboundLocalError
  | UnicodeEncodeError, UnicodeEncodeError | ValueError, ValueError
  | TelegramError, TelegramError | Empty, Empty => true
  | _, _ => false
  end.

Inductive res (A : Type) : Type :=
| Ok (a : A)
| Exn (e : pyexn).
Arguments Ok {A} a.
Arguments Exn {A} e.

(** ** Python strings and bytes *)

Definition pystr := list Z.
Definition pybytes := list Z.

(** *** [str.encode('utf-16-be')] (strict error handler).
    CPython writes a BMP code point as one big-endian unit and a code point
    above U+FFFF as a surrogate pair; a lone surrogate in the string raises
    [UnicodeEncodeError] ("surrogates not allowed"). *)

Definition is_surrogate (u : Z) : bool := (0xD800 <=? u) && (u <=? 0xDFFF).
Definition is_high_surrogate (u : Z) : bool := (0xD800 <=? u) && (u <=? 0xDBFF).
Definition is_low_surrogate (u : Z) : bool := (0xDC00 <=? u) && (u <=? 0xDFFF).

Definition unit_be (u : Z) : pybytes := [Z.shiftr u 8; Z.land u 0xFF].

Definition high_surrogate (c : Z) : Z := 0xD800 - Z.shiftr 0x10000 10 + Z.shiftr c 10.
Definition low_surrogate (c : Z) : Z := 0xDC00 + Z.land c 0x3FF.

Fixpoint encode_utf16be (s : pystr) : option pybytes :=
  match s with
  | [] => Some []
  | c :: s' =>
      match encode_utf16be s' with
      | None => None
      | Some rest =>
          if is_surrogate c then None
          else if c <? 0x10000 then Some (unit_be c ++ rest)
          else Some (unit_be (high_surrogate c) ++ unit_be (low_surrogate c) ++ rest)
      end
  end.

(** A Python [str] built from Unicode scalar values only (no lone
    surrogates): the strings a Telegram text message can carry. *)
Definition valid_text (s : pystr) : bool :=
  forallb (fun c => (0 <=? c) && (c <=? 0x10FFFF) && negb (is_surrogate c)) s.

(** *** [bytes.decode('utf-16-be', errors='ignore')].
    Follows CPython's [utf16_decode] loop and the error positions set by
    [PyUnicode_DecodeUTF16Stateful]; with [errors='ignore'] each error range
    is skipped:
    - a trailing odd byte ("truncated data") is skipped;
    - a lone low surrogate ("illegal encoding") skips its two bytes;
    - a high surrogate followed by fewer than two bytes ("unexpected end of
      data") skips everything up to the end;
    - a high surrogate followed by a unit that is not a low surrogate
      ("illegal UTF-16 surrogate") skips the high surrogate only; the
      following unit is decoded again. *)

Definition join_be (hi lo : Z) : Z := Z.lor (Z.shiftl hi 8) lo.

Definition join_surrogates (h l : Z) : Z :=
  Z.lor (Z.shiftl (Z.land h 0x3FF) 10) (Z.land l 0x3FF) + 0x10000.

Fixpoint decode_utf16be_ignore (b : pybytes) : pystr :=
  match b with
  | b1 :: b2 :: rest =>
      let u := join_be b1 b2 in
      if negb (is_surrogate u) then u :: decode_utf16be_ignore rest
      else if negb (is_high_surrogate u) then decode_utf16be_ignore rest
      else match rest with
           | b3 :: b4 :: rest' =>
               let u2 := join_be b3 b4 in
               if is_low_surrogate u2 then join_surrogates u u2 :: decode_utf16be_ignore rest'
               else decode_utf16be_ignore rest
           | _ => []
           end
  | _ => []
  end.

(** *** [bytes.decode('latin-1', errors='ignore')]: byte [b] is code point [b]. *)
Definition decode_latin1 (b : pybytes) : pystr := map (fun x => x) b.

(** *** [bytes.decode('ascii', errors='ignore')]: bytes above 0x7F are dropped. *)
Definition decode_ascii_ignore (b : pybytes) : pystr := filter (fun x => x <? 128) b.


(** ** Observable events *)

Inductive level : Type := Debug | Info | Warning | Error.

(** smpplib client states ([smpplib.consts.SMPP_CLIENT_STATE_*]). *)
Inductive cstate : Type := CLOSED | OPEN | BOUND_TX | BOUND_RX | BOUND_TRX.

Definition cstate_eqb (a b : cstate) : bool :=
  match a, b with
  | CLOSED, CLOSED | OPEN, OPEN | BOUND_TX, BOUND_TX | BOUND_RX, BOUND_RX
  | BOUND_TRX, BOUND_TRX => true
  | _, _ => false
  end.

(** [st in [...]] on a Python list of states. *)
Definition state_in (st : cstate) (l : list cstate) : bool := existsb (cstate_eqb st) l.

(** [smpplib.consts.SMPP_TON_INTL] and [smpplib.consts.SMPP_MSGMODE_DEFAULT]. *)
Definition SMPP_TON_INTL : Z := 0x01.
Definition SMPP_MSGMODE_DEFAULT : Z := 0x00.

(** [SMPP_PHONE_NUMBER]: the sender number, set in the configuration block
    (a placeholder in the source). *)
Definition SMPP_PHONE_NUMBER : pystr :=
  [0x7F51; 0x5173; 0x4E0A; 0x53D1; 0x9001; 0x77ED; 0x4FE1; 0x7684; 0x624B; 0x673A; 0x53F7; 0x7801].

(** The keyword arguments of [client.send_message(...)] in [send_sms]. *)
Module SendMessage.
Record t : Type := mk {
  source_addr_ton : Z;
  source_addr : pystr;
  dest_addr_ton : Z;
  destination_addr : pystr;
  short_message : pybytes;
  data_coding : Z;
  esm_class : Z
}.
End SendMessage.

(** A relayed inbound message: [(phone_number, message_content)]. *)
Definition msg : Type := (pystr * pystr)%type.

(** Replies of the Telegram front end ([update.message.reply_text]). *)
Inductive reply : Type :=
| ReplySent (message phone_number : pystr)   (* '📨 已发送 "{message}" 到 {phone_number}' *)
| ReplyFailed                                (* '❌ 发送失败，请稍后重试' *)
| ReplyFormatError.                          (* '❌ 格式错误！请使用: 目标号码 短信内容' *)

Inductive event : Type :=
| EvLog (lvl : level)
| EvSleep (ms : Z)                          (* time.sleep / asyncio.sleep, in ms *)
| EvClientNew                               (* smpplib.client.Client(SMPP_SERVER, ...) *)
| EvConnect                                 (* client.connect() *)
| EvBind                                    (* client.bind_transceiver(...) *)
| EvSetHandler                              (* client.set_message_received_handler *)
| EvListenThread                            (* threading.Thread(target=client.listen) *)
| EvEnquireLink                             (* client.send_pdu(make_pdu('enquire_link')) *)
| EvUnbind                                  (* client.unbind() *)
| EvDisconnect                              (* client.disconnect() *)
| EvSendMessage (args : SendMessage.t)      (* client.send_message(...) *)
| EvReply (r : reply)                       (* update.message.reply_text(...) *)
| EvPut (m : msg)                           (* message_queue.put(m) *)
| EvGet (m : msg)                           (* message_queue.get(timeout=1) returning m *)
| EvForward (m : msg)                       (* bot.send_message(chat_id, text of m) *)
| EvTaskDone.                               (* message_queue.task_done() *)

(** ** The effect monad: global state [S], Python exceptions, event trace.
    Mutations made before an exception persist, as in Python. *)

Definition M (S A : Type) : Type := S -> res A * S * list event.

Definition ret {S A} (a : A) : M S A := fun s => (Ok a, s, []).

Definition bind {S A B} (m : M S A) (k : A -> M S B) : M S B :=
  fun s =>
    match m s with
    | (Ok a, s1, t1) => let '(r, s2, t2) := k a s1 in (r, s2, t1 ++ t2)
    | (Exn e, s1, t1) => (Exn e, s1, t1)
    end.

Definition raise {S A} (e : pyexn) : M S A := fun s => (Exn e, s, []).

(** [try: m except Exception as e: h e] *)
Definition try_except {S A} (m : M S A) (h : pyexn -> M S A) : M S A :=
  fun s =>
    match m s with
    | (Ok a, s1, t1) => (Ok a, s1, t1)
    | (Exn e, s1, t1) => let '(r, s2, t2) := h e s1 in (r, s2, t1 ++ t2)
    end.

Definition emit {S} (ev : event) : M S unit := fun s => (Ok tt, s, [ev]).
Definition get {S} : M S S := fun s => (Ok s, s, []).
Definition put {S} (s' : S) : M S unit := fun _ => (Ok tt, s', []).

Notation "x <- m ;; k" := (bind m (fun x => k))
  (at level 61, m at next level, right associativity).
Notation "' p <- m ;; k" := (bind m (fun x => match x with p => k end))
  (at level 61, p pattern, m at next level, right associativity).
Notation "m ;; k" := (bind m (fun _ : unit => k))
  (at level 61, right associativity).

Definition log {S} (l : level) : M S unit := emit (EvLog l).
Definition sleep {S} (ms : Z) : M S unit := emit (EvSleep ms).

(** A library call that performs event [ev] and either returns or raises [e]. *)
Definition call {S} (ev : event) (ok : bool) (e : pyexn) : M S unit :=
  emit ev ;; if ok then ret tt else raise e.

(** ** The SMPP session: the global [client : Optional[Client]] *)

(** [None] is Python's [None]; [Some st] a client object whose [state]
    is [st]. *)
Definition handle : Type := option cstate.

(** How the network answers [connect_smpp]'s two calls. *)
Inductive connect_outcome : Type :=
| ConnectFails     (* client.connect() raises *)
| BindFails        (* client.bind_transceiver(...) raises *)
| Connected.       (* both succeed *)

(** [connect_smpp()] (lines 31-44).  The new [Client] starts [CLOSED],
    is [OPEN] after [connect] and [BOUND_TRX] after [bind_transceiver]; it is
    stored in the global before [connect] is tried, so a failed attempt
    leaves the fresh, unbound client in [client]. *)
Definition connect_smpp (o : connect_outcome) : M handle handle :=
  try_except
    (put (Some CLOSED) ;;
     emit EvClientNew ;;
     call EvConnect (match o with ConnectFails => false | _ => true end) ConnectionError ;;
     put (Some OPEN) ;;
     call EvBind (match o with BindFails => false | _ => true end) PDUError ;;
     put (Some BOUND_TRX) ;;
     emit EvSetHandler ;;
     emit EvListenThread ;;
     log Info ;;
     get)
    (fun e => log Error ;; raise e).

(** What one keep-alive tick meets: [drift] is what smpplib and the network
    did to the state of the current client since the last tick; the other
    fields say which library calls of this tick succeed. *)
Record tick_env : Type := {
  drift : cstate -> cstate;
  probe_ok : bool;
  unbind_ok : bool;
  disconnect_ok : bool;
  reconnect : connect_outcome
}.

(** The [else] branch of the keep-alive loop (lines 56-60). *)
Definition reconnect_branch (e : tick_env) : M handle unit :=
  log Warning ;;
  c <- get ;;
  (match c with
   | Some _ => call EvUnbind (unbind_ok e) PDUError ;;
               call EvDisconnect (disconnect_ok e) ConnectionError
   | None => ret tt
   end) ;;
  c' <- connect_smpp (reconnect e) ;;
  put c'.

(** The body of the [try] block of [smpp_keep_alive] (lines 51-60). *)
Definition keep_alive_body (e : tick_env) : M handle unit :=
  c <- get ;;
  match c with
  | Some st =>
      if state_in st [OPEN; BOUND_TRX] then
        call EvEnquireLink (probe_ok e) ConnectionError ;; log Debug
      else reconnect_branch e
  | None => reconnect_branch e
  end.

(** One iteration of [while True] in [smpp_keep_alive] (lines 50-64). *)
Definition keep_alive_tick (e : tick_env) : M handle unit :=
  c <- get ;;
  put (option_map (drift e) c) ;;
  try_except (keep_alive_body e) (fun _ => log Error ;; sleep 5000) ;;
  sleep 30000.

(** [smpp_keep_alive()] run for as many ticks as environments are given. *)
Fixpoint smpp_keep_alive (es : list tick_env) : M handle unit :=
  match es with
  | [] => ret tt
  | e :: es' => keep_alive_tick e ;; smpp_keep_alive es'
  end.

(** [client and client.state in [SMPP_CLIENT_STATE_BOUND_TRX]] (line 74). *)
Definition client_bound_trx (c : handle) : bool :=
  match c with Some st => state_in st [BOUND_TRX] | None => false end.

(** [client and client.state in [OPEN, BOUND_TRX]] (lines 51-52). *)
Definition client_live (c : handle) : bool :=
  match c with Some st => state_in st [OPEN; BOUND_TRX] | None => false end.

(** [send_sms(phone_number, message)] (lines 70-92).  [o] is how a reconnect
    attempt goes, [send_ok] whether [client.send_message] succeeds. *)
Definition send_sms (o : connect_outcome) (send_ok : bool)
    (phone_number message : pystr) : M handle bool :=
  try_except
    (c <- get ;;
     (if negb (client_bound_trx c)
      then log Warning ;; c' <- connect_smpp o ;; put c'
      else ret tt) ;;
     message_bytes <- (match encode_utf16be message with
                       | Some b => ret b
                       | None => raise UnicodeEncodeError
                       end) ;;
     c2 <- get ;;
     (match c2 with
      | None => raise AttributeError
      | Some _ =>
          call (EvSendMessage {| SendMessage.source_addr_ton := SMPP_TON_INTL;
                                 SendMessage.source_addr := SMPP_PHONE_NUMBER;
                                 SendMessage.dest_addr_ton := SMPP_TON_INTL;
                                 SendMessage.destination_addr := phone_number;
                                 SendMessage.short_message := message_bytes;
                                 SendMessage.data_coding := 8;
                                 SendMessage.esm_class := SMPP_MSGMODE_DEFAULT |})
               send_ok ConnectionError
      end) ;;
     log Info ;;
     ret true)
    (fun _ => log Error ;; ret false).

(** ** The Telegram front end *)

(** [s.split(sep, 1)] for a one-character separator. *)
Fixpoint split_once (sep : Z) (s : pystr) : list pystr :=
  match s with
  | [] => [[]]
  | c :: s' =>
      if c =? sep then [[]; s']
      else match split_once sep s' with
           | p :: rest => (c :: p) :: rest
           | [] => [[c]]
           end
  end.

(** [a, b = parts]: raises [ValueError] unless [parts] has two elements. *)
Definition unpack2 {S} (parts : list pystr) : M S (pystr * pystr) :=
  match parts with
  | [a; b] => ret (a, b)
  | _ => raise ValueError
  end.

Section FrontEnd.

(** The dispatcher [send_sms] as [handle_message] sees it. *)
Variable dispatch : pystr -> pystr -> M handle bool.

(** [handle_message(update, context)] (lines 94-105), on the text of the
    update.  Replies are sent without failure in this model. *)
Definition handle_message (user_message : pystr) : M handle unit :=
  try_except
    ('(phone_number, message) <- unpack2 (split_once 32 user_message) ;;
     success <- dispatch phone_number message ;;
     if success then emit (EvReply (ReplySent message phone_number))
     else emit (EvReply ReplyFailed))
    (fun e => if pyexn_eqb e ValueError then emit (EvReply ReplyFormatError)
              else raise e).

End FrontEnd.

(** ** The receive callback *)

(** The PDU object smpplib passes to the callback.  [source_addr] and
    [short_message] are [None] when the attribute holds Python's [None];
    [data_coding] is [None] when the object has no such attribute. *)
Module DeliverSM.
Record t : Type := mk {
  command : string;
  source_addr : option pybytes;
  short_message : option pybytes;
  data_coding : option Z
}.
End DeliverSM.

(** The locals of [handle_incoming_sms] that its [except] clause reads;
    [None] means not yet assigned. *)
Record hlocals : Type := {
  phone_number : option pystr;
  raw_message : option (option pybytes)
}.

Definition unbound : hlocals := {| phone_number := None; raw_message := None |}.

(** State of the callback: the queue and its local frame. *)
Definition HS : Type := (list msg * hlocals)%type.

(** [x.decode(...)]/[x.hex()] on an attribute: [AttributeError] on [None]. *)
Definition attr_bytes {S} (x : option pybytes) : M S pybytes :=
  match x with
  | Some b => ret b
  | None => raise AttributeError
  end.

(** [message_queue.put(m)] *)
Definition queue_put (m : msg) : M HS unit :=
  fun '(q, l) => (Ok tt, (q ++ [m], l), [EvPut m]).

(** The choice of decoding by [data_coding] (lines 116-121). *)
Definition decode_message (data_coding : Z) (raw_message : pybytes) : pystr :=
  if data_coding =? 0 then decode_latin1 raw_message
  else if data_coding =? 8 then decode_utf16be_ignore raw_message
  else decode_latin1 raw_message.

(** The body of the [try] block (lines 110-124). *)
Definition handle_incoming_body (pdu : DeliverSM.t) : M HS unit :=
  if String.eqb (DeliverSM.command pdu) "deliver_sm" then
    src <- attr_bytes (DeliverSM.source_addr pdu) ;;
    '(q, l) <- get ;;
    put (q, {| phone_number := Some (decode_ascii_ignore src);
               raw_message := raw_message l |}) ;;
    '(q, l) <- get ;;
    put (q, {| phone_number := phone_number l;
               raw_message := Some (DeliverSM.short_message pdu) |}) ;;
    let data_coding := match DeliverSM.data_coding pdu with
                       | Some d => d
                       | None => 0
                       end in
    raw <- attr_bytes (DeliverSM.short_message pdu) ;;
    let message_content := decode_message data_coding raw in
    log Info ;;
    queue_put (decode_ascii_ignore src, message_content)
  else ret tt.

(** The [except] clause (line 126): its f-string reads [phone_number] and
    then calls [raw_message.hex()]. *)
Definition handle_incoming_except : M HS unit :=
  '(_, l) <- get ;;
  match phone_number l with
  | None => raise UnboundLocalError
  | Some _ =>
      match raw_message l with
      | None => raise UnboundLocalError
      | Some r => _ <- attr_bytes r ;; log Error
      end
  end.

(** [handle_incoming_sms(pdu)] (lines 107-126), acting on [message_queue]. *)
Definition handle_incoming_sms (pdu : DeliverSM.t) : M (list msg) unit :=
  fun q =>
    let '(r, (q', _), t) :=
      try_except (handle_incoming_body pdu) (fun _ => handle_incoming_except) (q, unbound) in
    (r, q', t).

(** ** The notification consumer *)

(** [message_queue.get(timeout=1)]: raises [queue.Empty] on an empty queue. *)
Definition queue_get : M (list msg) msg :=
  fun q => match q with
           | [] => (Exn Empty, [], [])
           | m :: q' => (Ok m, q', [EvGet m])
           end.

(** One iteration of [while True] in [process_incoming_messages]
    (lines 131-141); [fwd_ok] says whether [bot.send_message] succeeds. *)
Definition consumer_iteration (fwd_ok : bool) : M (list msg) unit :=
  try_except
    ('(phone_number, message_content) <- queue_get ;;
     log Debug ;;
     call (EvForward (phone_number, message_content)) fwd_ok TelegramError ;;
     emit EvTaskDone)
    (fun e => if pyexn_eqb e Empty then sleep 100 else raise e).

(** [process_incoming_messages()] run for as many iterations as outcomes are
    given; an exception leaves the loop. *)
Fixpoint process_incoming_messages (oks : list bool) : M (list msg) unit :=
  match oks with
  | [] => ret tt
  | ok :: oks' => consumer_iteration ok ;; process_incoming_messages oks'
  end.

(** ** Listener and consumer interleaved on the shared queue *)

Inductive act : Type :=
| Deliver (pdu : DeliverSM.t)     (* the listener thread invokes the callback *)
| ConsumerStep (fwd_ok : bool).   (* the consumer task runs one iteration *)

Record bridge : Type := {
  message_queue : list msg;
  consumer_alive : bool
}.

Fixpoint run_bridge (acts : list act) (b : bridge) : bridge * list event :=
  match acts with
  | [] => (b, [])
  | Deliver pdu :: acts' =>
      let '(_, q, t) := handle_incoming_sms pdu (message_queue b) in
      let '(b', t') := run_bridge acts' {| message_queue := q;
                                            consumer_alive := consumer_alive b |} in
      (b', t ++ t')
  | ConsumerStep ok :: acts' =>
      if consumer_alive b then
        let '(r, q, t) := consumer_iteration ok (message_queue b) in
        let alive := match r with Ok _ => true | Exn _ => false end in
        let '(b', t') := run_bridge acts' {| message_queue := q;
                                              consumer_alive := alive |} in
        (b', t ++ t')
      else run_bridge acts' b
  end.

(** Messages put on, taken from, and forwarded out of the queue. *)
Definition puts (t : list event) : list msg :=
  flat_map (fun ev => match ev with EvPut m => [m] | _ => [] end) t.
Definition gets (t : list event) : list msg :=
  flat_map (fun ev => match ev with EvGet m => [m] | _ => [] end) t.
Definition forwards (t : list event) : list msg :=
  flat_map (fun ev => match ev with EvForward m => [m] | _ => [] end) t.

Definition count_ev (p : event -> bool) (t : list event) : nat :=
  List.length (filter p t).

Definition is_send_message (ev : event) : bool :=
  match ev with EvSendMessage _ => true | _ => false end.
Definition is_client_new (ev : event) : bool :=
  match ev with EvClientNew => true | _ => false end.
Definition is_warning (ev : event) : bool :=
  match ev with EvLog Warning => true | _ => false end.

(** The keep-alive run cut into ticks: each tick's environment, the handle
    at the start of the tick and the events of the tick. *)
Fixpoint tick_log (es : list tick_env) (h : handle)
    : list (tick_env * handle * list event) :=
  match es with
  | [] => []
  | e :: es' =>
      let '(_, h', t) := keep_alive_tick e h in (e, h, t) :: tick_log es' h'
  end.

(** What one keep-alive tick does, given the handle [hs] it observes: on a
    live handle it only probes; otherwise it enters the reconnect branch once,
    unbinding an existing handle first and disconnecting it before a new
    client is created. *)
Definition tick_shape (hs : handle) (t : list event) : Prop :=
  if client_live hs then
    count_ev is_warning t = 0%nat /\ count_ev is_client_new t = 0%nat /\
    hd_error t = Some EvEnquireLink
  else
    count_ev is_warning t = 1%nat /\
    match hs with
    | Some _ => exists rest, t = EvLog Warning :: EvUnbind :: rest /\
                  (count_ev is_client_new t = 1%nat ->
                   exists rest', rest = EvDisconnect :: EvClientNew :: rest')
    | None => exists rest, t = EvLog Warning :: EvClientNew :: rest
    end.

(** A [bytes] value: every element is in [0, 255]. *)
Definition byte_range (b : pybytes) : bool :=
  forallb (fun x => (0 <=? x) && (x <? 256)) b.

(** Number of code points above U+FFFF (written as a surrogate pair). *)
Definition count_astral (s : pystr) : nat :=
  List.length (filter (fun c => 0x10000 <=? c) s).

Definition is_task_done (ev : event) : bool :=
  match ev with EvTaskDone => true | _ => false end.
Definition is_error (ev : event) : bool :=
  match ev with EvLog Error => true | _ => false end.
Definition is_teardown (ev : event) : bool :=
  match ev with EvUnbind | EvDisconnect => true | _ => false end.

(** * Properties *)

(** Case split on the first [if] of the goal. *)
Ltac case_if :=
  lazymatch goal with
  | |- context [if ?b then _ else _] => destruct b eqn:?
  end.

(** ** The UTF-16 codec on small inputs *)

Example enc_hi : encode_utf16be [0x48; 0x1F600] = Some [0; 0x48; 0xD8; 0x3D; 0xDE; 0x00].
Proof. reflexivity. Qed.
Example dec_hi : decode_utf16be_ignore [0; 0x48; 0xD8; 0x3D; 0xDE; 0x00] = [0x48; 0x1F600].
Proof. reflexivity. Qed.
Example dec_bad : decode_utf16be_ignore [0xD8; 0; 0; 0x41; 0xDC; 0; 0x42] = [0x41].
Proof. reflexivity. Qed.

(** ** Bit arithmetic of the UTF-16 codec *)

Lemma shiftr_div (u k : Z) : 0 <= k -> Z.shiftr u k = u / 2 ^ k.
Proof. intros Hk. apply Z.shiftr_div_pow2; exact Hk. Qed.

Lemma land_mod (u k : Z) : 0 <= k -> Z.land u (Z.ones k) = u mod 2 ^ k.
Proof. intros Hk. apply Z.land_ones; exact Hk. Qed.

Lemma lor_shiftl_add (a b k : Z) :
  0 <= k -> 0 <= b < 2 ^ k -> Z.lor (Z.shiftl a k) b = a * 2 ^ k + b.
Proof.
  intros Hk Hb.
  assert (Hdis : Z.land (Z.shiftl a k) b = 0).
  { apply Z.bits_inj'; intros i Hi.
    rewrite Z.land_spec, Z.bits_0, Z.shiftl_spec by exact Hi.
    destruct (Z.lt_ge_cases i k) as [Hlt | Hge].
    - rewrite (Z.testbit_neg_r a (i - k)) by lia. reflexivity.
    - rewrite <- (Z.mod_small b (2 ^ k)) by exact Hb.
      rewrite Z.mod_pow2_bits_high by lia. apply andb_false_r. }
  rewrite <- Z.lxor_lor by exact Hdis.
  rewrite <- Z.add_nocarry_lxor by exact Hdis.
  rewrite Z.shiftl_mul_pow2 by exact Hk. reflexivity.
Qed.

Lemma join_be_unit (u : Z) : 0 <= u < 65536 ->
  join_be (Z.shiftr u 8) (Z.land u 0xFF) = u.
Proof.
  intros Hu. unfold join_be.
  change 0xFF with (Z.ones 8).
  rewrite land_mod, shiftr_div by lia.
  rewrite lor_shiftl_add.
  - change (2 ^ 8) with 256. Z.div_mod_to_equations. lia.
  - lia.
  - change (2 ^ 8) with 256. Z.div_mod_to_equations. lia.
Qed.

Lemma unit_be_range (u : Z) : 0 <= u < 65536 ->
  Forall (fun x => 0 <= x < 256) (unit_be u).
Proof.
  intros Hu. unfold unit_be. change 0xFF with (Z.ones 8).
  rewrite land_mod, shiftr_div by lia. change (2 ^ 8) with 256.
  repeat constructor; Z.div_mod_to_equations; lia.
Qed.

Lemma high_surrogate_value (c : Z) :
  0x10000 <= c <= 0x10FFFF ->
  high_surrogate c = 0xD7C0 + c / 1024 /\ 0xD800 <= high_surrogate c <= 0xDBFF.
Proof.
  intros Hc. unfold high_surrogate.
  rewrite !shiftr_div by lia. change (0x10000 / 2 ^ 10) with 64.
  change (2 ^ 10) with 1024. split; [lia|]. Z.div_mod_to_equations. lia.
Qed.

Lemma low_surrogate_value (c : Z) :
  low_surrogate c = 0xDC00 + c mod 1024 /\ 0xDC00 <= low_surrogate c <= 0xDFFF.
Proof.
  unfold low_surrogate. change 0x3FF with (Z.ones 10).
  rewrite land_mod by lia. change (2 ^ 10) with 1024.
  split; [reflexivity|]. Z.div_mod_to_equations. lia.
Qed.

Lemma join_surrogates_pair (c : Z) :
  0x10000 <= c <= 0x10FFFF ->
  join_surrogates (high_surrogate c) (low_surrogate c) = c.
Proof.
  intros Hc.
  destruct (high_surrogate_value c Hc) as [Hh _].
  destruct (low_surrogate_value c) as [Hl _].
  unfold join_surrogates. rewrite Hh, Hl.
  change 0x3FF with (Z.ones 10). rewrite !land_mod by lia.
  change (2 ^ 10) with 1024.
  rewrite lor_shiftl_add.
  - change (2 ^ 10) with 1024. Z.div_mod_to_equations. lia.
  - lia.
  - change (2 ^ 10) with 1024. Z.div_mod_to_equations. lia.
Qed.

(** Decoding the UTF-16-BE encoding of a string of scalar values gives the
    string back. *)
Lemma decode_encode_utf16be (s : pystr) (b : pybytes) :
  valid_text s = true -> encode_utf16be s = Some b -> decode_utf16be_ignore b = s.
Proof.
  revert b. induction s as [|c s IH]; intros b Hv He.
  - simpl in He. injection He as <-. reflexivity.
  - simpl in Hv. apply andb_true_iff in Hv as [Hc Hv].
    apply andb_true_iff in Hc as [Hc Hns].
    apply andb_true_iff in Hc as [H0 H1].
    apply Z.leb_le in H0. apply Z.leb_le in H1. apply negb_true_iff in Hns.
    simpl in He. destruct (encode_utf16be s) as [rest|] eqn:Hr; [|discriminate].
    rewrite Hns in He.
    destruct (c <? 0x10000) eqn:Hbmp.
    + injection He as <-. apply Z.ltb_lt in Hbmp.
      unfold unit_be. simpl. rewrite join_be_unit by lia.
      rewrite Hns. simpl. f_equal. apply IH; auto.
    + injection He as <-. apply Z.ltb_ge in Hbmp.
      destruct (high_surrogate_value c) as [_ Hh]; [lia|].
      destruct (low_surrogate_value c) as [_ Hl].
      unfold unit_be. simpl.
      rewrite (join_be_unit (high_surrogate c)) by lia.
      rewrite (join_be_unit (low_surrogate c)) by lia.
      unfold is_surrogate, is_high_surrogate, is_low_surrogate.
      replace ((0xD800 <=? high_surrogate c) && (high_surrogate c <=? 0xDFFF)) with true
        by (symmetry; apply andb_true_iff; split; apply Z.leb_le; lia).
      replace ((0xD800 <=? high_surrogate c) && (high_surrogate c <=? 0xDBFF)) with true
        by (symmetry; apply andb_true_iff; split; apply Z.leb_le; lia).
      replace ((0xDC00 <=? low_surrogate c) && (low_surrogate c <=? 0xDFFF)) with true
        by (symmetry; apply andb_true_iff; split; apply Z.leb_le; lia).
      simpl. rewrite join_surrogates_pair by lia. f_equal. apply IH; auto.
Qed.

Lemma encode_valid_some (s : pystr) :
  valid_text s = true -> exists b, encode_utf16be s = Some b.
Proof.
  induction s as [|c s IH]; intros Hv.
  - exists []. reflexivity.
  - simpl in Hv. apply andb_true_iff in Hv as [Hc Hv].
    apply andb_true_iff in Hc as [_ Hns]. apply negb_true_iff in Hns.
    destruct (IH Hv) as [rest Hr]. simpl. rewrite Hr, Hns.
    destruct (c <? 0x10000); eexists; reflexivity.
Qed.

(** ** The receive callback *)

Lemma decode_message_8 (raw : pybytes) :
  decode_message 8 raw = decode_utf16be_ignore raw.
Proof. reflexivity. Qed.

Lemma decode_message_not_8 (dc : Z) (raw : pybytes) :
  dc <> 8 -> decode_message dc raw = decode_latin1 raw.
Proof.
  intros Hdc. unfold decode_message.
  destruct (dc =? 0); [reflexivity|].
  apply Z.eqb_neq in Hdc. rewrite Hdc. reflexivity.
Qed.

(** A [deliver_sm] whose [source_addr] and [short_message] are bytes is
    decoded and put on the queue. *)
Lemma handle_incoming_sms_deliver (pdu : DeliverSM.t) (q : list msg)
    (src raw : pybytes) :
  DeliverSM.command pdu = "deliver_sm"%string ->
  DeliverSM.source_addr pdu = Some src ->
  DeliverSM.short_message pdu = Some raw ->
  let m := (decode_ascii_ignore src,
            decode_message (match DeliverSM.data_coding pdu with
                            | Some d => d | None => 0 end) raw) in
  handle_incoming_sms pdu q = (Ok tt, q ++ [m], [EvLog Info; EvPut m]).
Proof.
  destruct pdu as [cmd sa sm dc]; simpl.
  intros -> -> ->. reflexivity.
Qed.

(** The callback only ever appends to the queue, and never takes from it. *)
Lemma handle_incoming_sms_queue (pdu : DeliverSM.t) (q : list msg) :
  let '(_, q', t) := handle_incoming_sms pdu q in
  q' = q ++ puts t /\ gets t = [] /\ forwards t = [].
Proof.
  destruct pdu as [cmd sa sm dc].
  unfold handle_incoming_sms, try_except, handle_incoming_body.
  case_if.
  - destruct sa as [src|], sm as [raw|]; simpl;
      rewrite ?app_nil_r; repeat split; reflexivity.
  - simpl. rewrite app_nil_r. repeat split; reflexivity.
Qed.

(** ** The consumer *)

Lemma consumer_iteration_queue (ok : bool) (q : list msg) :
  let '(_, q', t) := consumer_iteration ok q in
  q = gets t ++ q' /\ puts t = [] /\ forwards t = gets t.
Proof.
  destruct q as [|[p c] q]; [|destruct ok]; simpl; repeat split; reflexivity.
Qed.

Lemma puts_app (t1 t2 : list event) : puts (t1 ++ t2) = puts t1 ++ puts t2.
Proof. unfold puts. apply flat_map_app. Qed.
Lemma gets_app (t1 t2 : list event) : gets (t1 ++ t2) = gets t1 ++ gets t2.
Proof. unfold gets. apply flat_map_app. Qed.
Lemma forwards_app (t1 t2 : list event) : forwards (t1 ++ t2) = forwards t1 ++ forwards t2.
Proof. unfold forwards. apply flat_map_app. Qed.

(** ** Claims about the inbound path *)

(** C2 (amended).  For a [deliver_sm] frame whose [source_addr] and
    [short_message] are bytes, the callback never raises and enqueues the
    payload decoded by the frame's [data_coding]: for 8, the UTF-16-BE
    decoding with [errors='ignore'], which gives back every string of scalar
    values from its encoding; for 0 or any other value, the Latin-1
    decoding, one character per byte. *)
Theorem handle_incoming_sms_decoding (pdu : DeliverSM.t) (q : list msg)
    (src raw : pybytes) (dc : Z) :
  DeliverSM.command pdu = "deliver_sm"%string ->
  DeliverSM.source_addr pdu = Some src ->
  DeliverSM.short_message pdu = Some raw ->
  DeliverSM.data_coding pdu = Some dc ->
  let content := decode_message dc raw in
  handle_incoming_sms pdu q =
    (Ok tt, q ++ [(decode_ascii_ignore src, content)],
     [EvLog Info; EvPut (decode_ascii_ignore src, content)]) /\
  (dc = 8 -> content = decode_utf16be_ignore raw /\
             forall s, valid_text s = true -> encode_utf16be s = Some raw -> content = s) /\
  (dc <> 8 -> content = decode_latin1 raw /\ List.length content = List.length raw).
Proof.
  intros Hc Hs Hr Hd content. split; [|split].
  - pose proof (handle_incoming_sms_deliver pdu q src raw Hc Hs Hr) as H.
    rewrite Hd in H. exact H.
  - intros ->. split; [reflexivity|].
    intros s Hv He. apply decode_encode_utf16be; assumption.
  - intros Hdc. unfold content. rewrite decode_message_not_8 by exact Hdc.
    split; [reflexivity|]. apply length_map.
Qed.

Lemma handle_incoming_sms_decoding_witness :
  handle_incoming_sms (DeliverSM.mk "deliver_sm" (Some [49]) (Some [0; 72; 0; 105]) (Some 8)) [] =
    (Ok tt, [([49], [72; 105])], [EvLog Info; EvPut ([49], [72; 105])]).
Proof.
  destruct (handle_incoming_sms_decoding
              (DeliverSM.mk "deliver_sm" (Some [49]) (Some [0; 72; 0; 105]) (Some 8))
              [] [49] [0; 72; 0; 105] 8 eq_refl eq_refl eq_refl eq_refl) as [H _].
  exact H.
Defined.

(** C2 (counterexample).  The two bytes [D8 00] are a lone high surrogate,
    the encoding of no Python string; under data coding 8 they are dropped,
    so the enqueued text is empty and holds no substitution character
    U+FFFD. *)
Lemma handle_incoming_sms_drops_invalid :
  (forall s, valid_text s = true -> encode_utf16be s <> Some [0xD8; 0x00]) /\
  handle_incoming_sms (DeliverSM.mk "deliver_sm" (Some [49]) (Some [0xD8; 0x00]) (Some 8)) [] =
    (Ok tt, [([49], [])], [EvLog Info; EvPut ([49], [])]) /\
  ~ In 0xFFFD (decode_message 8 [0xD8; 0x00]).
Proof.
  split; [|split].
  - intros s Hv He.
    pose proof (decode_encode_utf16be s _ Hv He) as Hd.
    simpl in Hd. subst s. discriminate.
  - reflexivity.
  - simpl. tauto.
Qed.

(** C6 (code bug).  When [pdu.source_addr] is [None], the [try] block
    raises [AttributeError] before [phone_number] is assigned; the [except]
    clause then reads [phone_number] and raises [UnboundLocalError] out of
    the callback, with nothing logged and nothing enqueued. *)
Theorem handle_incoming_sms_raises_unbound :
  handle_incoming_sms (DeliverSM.mk "deliver_sm" None (Some [72; 105]) None) [] =
    (Exn UnboundLocalError, [], []).
Proof. reflexivity. Qed.

(** C10.  A frame whose command is not [deliver_sm] leaves the queue
    unchanged; a [deliver_sm] frame without a [data_coding] attribute is
    decoded as data coding 0, i.e. by Latin-1. *)
Theorem handle_incoming_sms_deliver_only (pdu : DeliverSM.t) (q : list msg) :
  (DeliverSM.command pdu <> "deliver_sm"%string ->
   handle_incoming_sms pdu q = (Ok tt, q, [])) /\
  (forall src raw,
     DeliverSM.command pdu = "deliver_sm"%string ->
     DeliverSM.data_coding pdu = None ->
     DeliverSM.source_addr pdu = Some src ->
     DeliverSM.short_message pdu = Some raw ->
     handle_incoming_sms pdu q =
       (Ok tt, q ++ [(decode_ascii_ignore src, decode_latin1 raw)],
        [EvLog Info; EvPut (decode_ascii_ignore src, decode_latin1 raw)])).
Proof.
  split.
  - intros Hc. destruct pdu as [cmd sa sm dc]; simpl in Hc.
    unfold handle_incoming_sms, try_except, handle_incoming_body; simpl.
    apply String.eqb_neq in Hc. rewrite Hc. reflexivity.
  - intros src raw Hc Hd Hs Hr.
    pose proof (handle_incoming_sms_deliver pdu q src raw Hc Hs Hr) as H.
    rewrite Hd in H. exact H.
Qed.

Lemma handle_incoming_sms_deliver_only_witness :
  handle_incoming_sms (DeliverSM.mk "submit_sm_resp" (Some [49]) (Some [72]) None) [([50], [73])] =
    (Ok tt, [([50], [73])], []) /\
  handle_incoming_sms (DeliverSM.mk "deliver_sm" (Some [49]) (Some [72; 0xE9]) None) [] =
    (Ok tt, [([49], [72; 0xE9])], [EvLog Info; EvPut ([49], [72; 0xE9])]).
Proof.
  split.
  - apply (proj1 (handle_incoming_sms_deliver_only
                    (DeliverSM.mk "submit_sm_resp" (Some [49]) (Some [72]) None)
                    [([50], [73])])).
    simpl. discriminate.
  - exact (proj2 (handle_incoming_sms_deliver_only
                    (DeliverSM.mk "deliver_sm" (Some [49]) (Some [72; 0xE9]) None) [])
                 [49] [72; 0xE9] eq_refl eq_refl eq_refl eq_refl).
Defined.

(** C3 (code bug).  When [bot.send_message] raises, the exception is not
    [queue.Empty], so it leaves the [while True] loop: the consumer stops,
    nothing is logged, and the rest of the queue is never forwarded. *)
Theorem process_incoming_messages_stops (m : msg) (q : list msg) (oks : list bool) :
  process_incoming_messages (false :: oks) (m :: q) =
    (Exn TelegramError, q, [EvGet m; EvLog Debug; EvForward m]).
Proof. destruct m. reflexivity. Qed.

(** C7.  Whatever the interleaving of deliveries and consumer iterations,
    the messages taken from the queue are those put on it, in the same
    order (after what the queue held at the start), the rest still waiting
    in the queue; and each message taken is forwarded, in that order. *)
Theorem run_bridge_fifo (acts : list act) (b : bridge) :
  let '(b', t) := run_bridge acts b in
  message_queue b ++ puts t = gets t ++ message_queue b' /\ forwards t = gets t.
Proof.
  revert b. induction acts as [|a acts IH]; intros b.
  - simpl. rewrite !app_nil_r. split; reflexivity.
  - destruct a as [pdu | ok]; simpl.
    + pose proof (handle_incoming_sms_queue pdu (message_queue b)) as Hh.
      destruct (handle_incoming_sms pdu (message_queue b)) as [[r q] t].
      destruct Hh as [Hq [Hg Hf]].
      specialize (IH {| message_queue := q; consumer_alive := consumer_alive b |}).
      destruct (run_bridge acts _) as [b' t'] eqn:E. simpl in IH.
      destruct IH as [IHq IHf].
      rewrite puts_app, gets_app, forwards_app, Hg, Hf, IHf. simpl.
      split; [|reflexivity].
      rewrite app_assoc, <- Hq. exact IHq.
    + destruct (consumer_alive b).
      * pose proof (consumer_iteration_queue ok (message_queue b)) as Hc.
        destruct (consumer_iteration ok (message_queue b)) as [[r q] t].
        destruct Hc as [Hq [Hp Hf]].
        match goal with
        | |- context [run_bridge acts ?b0] =>
            specialize (IH b0); destruct (run_bridge acts b0) as [b' t']
        end.
        simpl in IH. destruct IH as [IHq IHf].
        rewrite puts_app, gets_app, forwards_app, Hp, Hf, IHf. simpl.
        split; [|reflexivity].
        rewrite Hq, <- app_assoc, IHq, app_assoc. reflexivity.
      * apply IH.
Qed.

(** ** The dispatcher and the front end *)

(** Membership in a concrete event trace, split into its cases. *)
Ltac in_trace H :=
  simpl in H;
  repeat (destruct H as [H|H]; [try discriminate H|]);
  try contradiction.

Lemma split_once_no_sep (sep : Z) (s : pystr) :
  ~ In sep s -> split_once sep s = [s].
Proof.
  induction s as [|c s IH]; intros Hn; [reflexivity|].
  simpl. destruct (c =? sep) eqn:E.
  - apply Z.eqb_eq in E. subst. exfalso. apply Hn. left. reflexivity.
  - rewrite IH; [reflexivity|]. intros Hi. apply Hn. right. exact Hi.
Qed.

Lemma split_once_first (sep : Z) (pre post : pystr) :
  ~ In sep pre -> split_once sep (pre ++ sep :: post) = [pre; post].
Proof.
  induction pre as [|c pre IH]; intros Hn.
  - simpl. rewrite Z.eqb_refl. reflexivity.
  - simpl. destruct (c =? sep) eqn:E.
    + apply Z.eqb_eq in E. subst. exfalso. apply Hn. left. reflexivity.
    + rewrite IH; [reflexivity|]. intros Hi. apply Hn. right. exact Hi.
Qed.

(** C1 (amended).  For a text made of scalar values, [send_sms] never
    raises.  With a [BOUND_TRX] client it calls [client.send_message] once,
    without reconnecting, and returns whether that call succeeded.
    Otherwise it makes exactly one reconnect attempt ([connect_smpp]); if the
    attempt succeeds, one [send_message] follows and its success is
    returned; if it fails, nothing is sent and [False] is returned. *)
Theorem send_sms_dispatch (o : connect_outcome) (send_ok : bool)
    (phone_number message : pystr) (h : handle) :
  valid_text message = true ->
  let '(r, _, t) := send_sms o send_ok phone_number message h in
  if client_bound_trx h then
    count_ev is_send_message t = 1%nat /\ count_ev is_client_new t = 0%nat /\
    r = Ok send_ok
  else
    count_ev is_client_new t = 1%nat /\
    (o = Connected -> count_ev is_send_message t = 1%nat /\ r = Ok send_ok) /\
    (o <> Connected -> count_ev is_send_message t = 0%nat /\ r = Ok false).
Proof.
  intros Hv. destruct (encode_valid_some message Hv) as [b Hb].
  unfold send_sms. rewrite Hb.
  destruct h as [[]|], o, send_ok; cbn;
    repeat split; intros; try reflexivity; try discriminate;
    try (exfalso; congruence).
Qed.

Lemma send_sms_dispatch_witness :
  valid_text [72; 105] = true /\
  count_ev is_send_message
    (let '(_, _, t) := send_sms Connected true [49] [72; 105] None in t) = 1%nat.
Proof.
  split; [reflexivity|].
  pose proof (send_sms_dispatch Connected true [49] [72; 105] None eq_refl) as H.
  destruct (send_sms Connected true [49] [72; 105] None) as [[r h'] t].
  destruct H as [_ [H _]]. destruct (H eq_refl) as [Hs _]. exact Hs.
Defined.

(** C1 (counterexample).  With no client and a failing reconnect, the
    reconnect is attempted once but [client.send_message] is never called,
    and [send_sms] returns [False]. *)
Lemma send_sms_failed_reconnect_no_send :
  let '(r, _, t) := send_sms ConnectFails true [49] [72] None in
  count_ev is_client_new t = 1%nat /\ count_ev is_send_message t = 0%nat /\ r = Ok false.
Proof. repeat split; reflexivity. Qed.

(** C8.  Every [client.send_message] call made by [send_sms] carries the
    UTF-16-BE encoding of the text, data coding 8, the international type of
    number for both addresses, and the requested destination. *)
Theorem send_sms_frame (o : connect_outcome) (send_ok : bool)
    (phone_number message : pystr) (h : handle) (args : SendMessage.t) :
  In (EvSendMessage args) (let '(_, _, t) := send_sms o send_ok phone_number message h in t) ->
  encode_utf16be message = Some (SendMessage.short_message args) /\
  SendMessage.data_coding args = 8 /\
  SendMessage.source_addr_ton args = SMPP_TON_INTL /\
  SendMessage.dest_addr_ton args = SMPP_TON_INTL /\
  SendMessage.destination_addr args = phone_number.
Proof.
  unfold send_sms. destruct (encode_utf16be message) as [b|] eqn:Hb;
    destruct h as [[]|], o, send_ok; intros H; in_trace H;
    injection H as <-; repeat split; reflexivity.
Qed.

Lemma send_sms_frame_witness :
  encode_utf16be [72] = Some [0; 72] /\ 8 = 8 /\ SMPP_TON_INTL = SMPP_TON_INTL /\
  SMPP_TON_INTL = SMPP_TON_INTL /\ [49] = [49].
Proof.
  exact (send_sms_frame Connected true [49] [72] (Some BOUND_TRX)
           (SendMessage.mk SMPP_TON_INTL SMPP_PHONE_NUMBER SMPP_TON_INTL [49] [0; 72] 8
              SMPP_MSGMODE_DEFAULT)
           (or_introl eq_refl)).
Defined.

(** C9.  A message with no space gets the format-error reply and the
    dispatcher is not called (the result does not depend on it, and the
    client handle is untouched); a message with a space calls the dispatcher
    once, with the text before the first space as destination and the rest as
    body, and replies according to its result. *)
Theorem handle_message_split (dispatch : pystr -> pystr -> M handle bool)
    (user_message : pystr) (h : handle) :
  (~ In 32 user_message ->
   handle_message dispatch user_message h = (Ok tt, h, [EvReply ReplyFormatError])) /\
  (forall pre post, user_message = pre ++ 32 :: post -> ~ In 32 pre ->
   handle_message dispatch user_message h =
     match dispatch pre post h with
     | (Ok success, h', t) =>
         (Ok tt, h', t ++ [EvReply (if success then ReplySent post pre else ReplyFailed)])
     | (Exn e, h', t) =>
         if pyexn_eqb e ValueError then (Ok tt, h', t ++ [EvReply ReplyFormatError])
         else (Exn e, h', t)
     end).
Proof.
  split.
  - intros Hn. unfold handle_message.
    rewrite (split_once_no_sep 32 user_message Hn). reflexivity.
  - intros pre post -> Hn. unfold handle_message.
    rewrite (split_once_first 32 pre post Hn).
    unfold try_except, bind, unpack2, ret, emit, raise. cbn.
    destruct (dispatch pre post h) as [[[success|e] h'] t].
    + destruct success; reflexivity.
    + cbn. destruct (pyexn_eqb e ValueError); [reflexivity|].
      rewrite !app_nil_r. reflexivity.
Qed.

Lemma handle_message_split_witness :
  handle_message (send_sms Connected true) [49; 50] None = (Ok tt, None, [EvReply ReplyFormatError]).
Proof.
  apply (proj1 (handle_message_split (send_sms Connected true) [49; 50] None)).
  simpl. lia.
Defined.

(** ** The keep-alive monitor *)

(** A tick never raises: the body's exception is turned into the error log
    and the 5 s backoff, and the 30 s sleep always follows. *)
Lemma keep_alive_tick_unfold (e : tick_env) (h : handle) :
  keep_alive_tick e h =
    let '(rb, hb, tb) := keep_alive_body e (option_map (drift e) h) in
    (Ok tt, hb,
     tb ++ (match rb with Ok _ => [] | Exn _ => [EvLog Error; EvSleep 5000] end)
        ++ [EvSleep 30000]).
Proof.
  unfold keep_alive_tick, bind, get, put, try_except, sleep, log, emit.
  cbn -[keep_alive_body].
  destruct (keep_alive_body e (option_map (drift e) h)) as [[[[]|ex] hb] tb]; cbn;
    rewrite <- ?app_assoc; reflexivity.
Qed.

Lemma smpp_keep_alive_cons (e : tick_env) (es : list tick_env) (h : handle) :
  smpp_keep_alive (e :: es) h =
    let '(_, h1, t1) := keep_alive_tick e h in
    let '(r2, h2, t2) := smpp_keep_alive es h1 in
    (r2, h2, t1 ++ t2).
Proof.
  simpl. unfold bind at 1. rewrite keep_alive_tick_unfold.
  destruct (keep_alive_body e (option_map (drift e) h)) as [[rb hb] tb].
  reflexivity.
Qed.

(** The run is the concatenation of its ticks, and never raises. *)
Lemma smpp_keep_alive_ticks (es : list tick_env) (h : handle) :
  let '(r, _, t) := smpp_keep_alive es h in
  r = Ok tt /\ t = List.concat (map (fun '(_, _, t1) => t1) (tick_log es h)).
Proof.
  revert h. induction es as [|e es IH]; intros h; [split; reflexivity|].
  rewrite smpp_keep_alive_cons. simpl tick_log.
  destruct (keep_alive_tick e h) as [[r1 h1] t1].
  specialize (IH h1). destruct (smpp_keep_alive es h1) as [[r2 h2] t2].
  destruct IH as [IHr IHt]. split; [exact IHr|]. simpl. rewrite IHt. reflexivity.
Qed.

Lemma tick_log_length (es : list tick_env) (h : handle) :
  List.length (tick_log es h) = List.length es.
Proof.
  revert h. induction es as [|e es IH]; intros h; [reflexivity|].
  simpl. destruct (keep_alive_tick e h) as [[r1 h1] t1]. simpl. rewrite IH. reflexivity.
Qed.

(** C5.  The monitor never stops on error: a run over any number of ticks
    returns normally, every tick is carried out, and a tick whose body raised
    (probe, unbind, disconnect or reconnect) ends with the error log and the
    5 s backoff, then the 30 s sleep of the loop. *)
Theorem smpp_keep_alive_never_stops (es : list tick_env) (h : handle) :
  let '(r, _, t) := smpp_keep_alive es h in
  r = Ok tt /\
  t = List.concat (map (fun '(_, _, t1) => t1) (tick_log es h)) /\
  List.length (tick_log es h) = List.length es /\
  Forall (fun '(e, h0, t1) =>
            let '(rb, _, tb) := keep_alive_body e (option_map (drift e) h0) in
            t1 = tb ++ (match rb with Ok _ => [] | Exn _ => [EvLog Error; EvSleep 5000] end)
                    ++ [EvSleep 30000])
         (tick_log es h).
Proof.
  pose proof (smpp_keep_alive_ticks es h) as Ht.
  destruct (smpp_keep_alive es h) as [[r h'] t].
  destruct Ht as [Hr Ht]. split; [exact Hr|]. split; [exact Ht|].
  split; [apply tick_log_length|].
  clear. revert h. induction es as [|e es IH]; intros h; [constructor|].
  simpl. pose proof (keep_alive_tick_unfold e h) as Hu.
  destruct (keep_alive_tick e h) as [[r1 h1] t1].
  constructor; [|apply IH].
  destruct (keep_alive_body e (option_map (drift e) h)) as [[rb hb] tb].
  injection Hu as _ _ ->. reflexivity.
Qed.

Lemma count_ev_app (p : event -> bool) (t1 t2 : list event) :
  count_ev p (t1 ++ t2) = (count_ev p t1 + count_ev p t2)%nat.
Proof. unfold count_ev. rewrite filter_app. apply length_app. Qed.

Lemma keep_alive_tick_shape (e : tick_env) (h : handle) :
  let hs := option_map (drift e) h in
  let '(_, h', t) := keep_alive_tick e h in
  (client_live hs = true -> h' = hs) /\ tick_shape hs t.
Proof.
  rewrite keep_alive_tick_unfold.
  destruct e as [d pr ub dk rc]. unfold tick_shape.
  destruct h as [st|]; cbn [option_map drift probe_ok unbind_ok disconnect_ok reconnect];
    [destruct (d st)|]; destruct pr, ub, dk, rc; cbn;
    repeat split; try reflexivity; try discriminate;
    try (eexists; split; [reflexivity|]);
    try (intros Hc; discriminate Hc);
    try (intros; eexists; reflexivity);
    try (eexists; reflexivity).
Qed.

(** C4 (counterexample).  Three ticks whose probe send fails while the
    client keeps reporting [BOUND_TRX]: every failure is logged and backed
    off, but no reconnect sequence is ever entered. *)
Lemma smpp_keep_alive_probe_failures_no_reconnect :
  let bad := {| drift := fun st => st; probe_ok := false; unbind_ok := true;
                disconnect_ok := true; reconnect := Connected |} in
  let '(r, _, t) := smpp_keep_alive [bad; bad; bad] (Some BOUND_TRX) in
  r = Ok tt /\ count_ev is_warning t = 0%nat /\ count_ev is_client_new t = 0%nat /\
  count_ev (fun ev => match ev with EvLog Error => true | _ => false end) t = 3%nat.
Proof. repeat split; reflexivity. Qed.

(** A tick on a live handle only probes; a failed probe is caught, logged
    and backed off, and the handle is left as observed. *)
Lemma keep_alive_tick_live (e : tick_env) (h : handle) :
  client_live (option_map (drift e) h) = true ->
  keep_alive_tick e h =
    (Ok tt, option_map (drift e) h,
     EvEnquireLink :: (if probe_ok e then [EvLog Debug] else [EvLog Error; EvSleep 5000])
       ++ [EvSleep 30000]).
Proof.
  intros Hl. rewrite keep_alive_tick_unfold.
  destruct e as [d pr ub dk rc].
  destruct h as [st|]; cbn [option_map drift probe_ok] in Hl |- *; [|discriminate Hl].
  destruct (d st); try discriminate Hl; destruct pr; reflexivity.
Qed.

Lemma tick_log_warnings (es : list tick_env) (h : handle) :
  count_ev is_warning (List.concat (map (fun '(_, _, t1) => t1) (tick_log es h))) =
  List.length (filter (fun '(e, h0, _) => negb (client_live (option_map (drift e) h0)))
                      (tick_log es h)).
Proof.
  revert h. induction es as [|e es IH]; intros h; [reflexivity|].
  simpl. pose proof (keep_alive_tick_shape e h) as Hs.
  destruct (keep_alive_tick e h) as [[r1 h1] t1]. destruct Hs as [_ Hs].
  simpl. rewrite count_ev_app, IH. unfold tick_shape in Hs.
  destruct (client_live (option_map (drift e) h)); simpl; destruct Hs as [Hw _]; rewrite Hw;
    reflexivity.
Qed.

(** C4 (amended).  A failed probe send is caught and logged, and never
    stops the monitor: every run returns normally, and a tick on a live handle
    whose probe fails is exactly the probe, the error log, the 5 s backoff and
    the 30 s sleep, leaving the handle as it was.  It does not by itself cause
    a reconnect.  On every tick the reconnect branch is entered exactly when
    the observed handle is absent or reports a state other than [OPEN] or
    [BOUND_TRX], once per such tick, so the run has one reconnect warning per
    such tick; the branch unbinds an existing handle first and disconnects it
    before creating the new client.  As long as the state stays live, probe
    failures cause no reconnect at all, one error log each. *)
Theorem smpp_keep_alive_reconnects (es : list tick_env) (h : handle) :
  (let '(r, _, t) := smpp_keep_alive es h in
   r = Ok tt /\
   t = List.concat (map (fun '(_, _, t1) => t1) (tick_log es h)) /\
   count_ev is_warning t =
     List.length (filter (fun '(e, h0, _) => negb (client_live (option_map (drift e) h0)))
                         (tick_log es h))) /\
  Forall (fun '(e, h0, t) =>
            let hs := option_map (drift e) h0 in
            tick_shape hs t /\
            (client_live hs = true -> probe_ok e = false ->
             keep_alive_tick e h0 =
               (Ok tt, hs, [EvEnquireLink; EvLog Error; EvSleep 5000; EvSleep 30000])))
         (tick_log es h) /\
  ((forall e, In e es -> forall st, drift e st = st) -> client_live h = true ->
   let '(r, h', t) := smpp_keep_alive es h in
   r = Ok tt /\ h' = h /\
   count_ev is_warning t = 0%nat /\ count_ev is_client_new t = 0%nat /\
   count_ev is_error t = List.length (filter (fun e => negb (probe_ok e)) es)).
Proof.
  split; [|split].
  - pose proof (smpp_keep_alive_ticks es h) as Ht.
    destruct (smpp_keep_alive es h) as [[r h'] t].
    destruct Ht as [Hr Ht]. split; [exact Hr|]. split; [exact Ht|].
    rewrite Ht. apply tick_log_warnings.
  - revert h. induction es as [|e es IH]; intros h; [constructor|].
    simpl. pose proof (keep_alive_tick_shape e h) as Hs.
    pose proof (keep_alive_tick_live e h) as Hlive.
    destruct (keep_alive_tick e h) as [[r1 h1] t1] eqn:Et.
    constructor; [|apply IH].
    destruct Hs as [_ Hs]. split; [exact Hs|].
    intros Hl Hp. try rewrite Et. rewrite (Hlive Hl), Hp. reflexivity.
  - revert h. induction es as [|e es IH]; intros h Hid Hl; [repeat split|].
    rewrite smpp_keep_alive_cons.
    assert (Hh : option_map (drift e) h = h).
    { destruct h as [st|]; [|reflexivity]. simpl. f_equal. apply Hid. left. reflexivity. }
    pose proof (keep_alive_tick_live e h) as Ht. rewrite Hh in Ht.
    rewrite (Ht Hl).
    specialize (IH h (fun e' He' => Hid e' (or_intror He')) Hl).
    destruct (smpp_keep_alive es h) as [[r2 h2] t2].
    destruct IH as [IHr [IHh [IHw [IHn IHe]]]].
    rewrite !count_ev_app, IHw, IHn, IHe.
    destruct (probe_ok e) eqn:Hp; cbn; rewrite Hp; cbn; repeat split; assumption.
Qed.

Lemma smpp_keep_alive_reconnects_witness :
  let bad := {| drift := fun st => st; probe_ok := false; unbind_ok := true;
                disconnect_ok := true; reconnect := Connected |} in
  let '(r, h', t) := smpp_keep_alive [bad; bad; bad] (Some BOUND_TRX) in
  r = Ok tt /\ h' = Some BOUND_TRX /\
  count_ev is_warning t = 0%nat /\ count_ev is_client_new t = 0%nat /\
  count_ev is_error t = List.length (filter (fun e => negb (probe_ok e)) [bad; bad; bad]).
Proof.
  intros bad.
  apply (proj2 (proj2 (smpp_keep_alive_reconnects [bad; bad; bad] (Some BOUND_TRX)))).
  - intros e He st. simpl in He.
    destruct He as [<-|[<-|[<-|[]]]]; reflexivity.
  - reflexivity.
Defined.

(** * Further properties of the program *)

(** ** The UTF-16 codec *)

Lemma join_be_bytes (b1 b2 : Z) :
  0 <= b1 < 256 -> 0 <= b2 < 256 -> join_be b1 b2 = b1 * 256 + b2.
Proof.
  intros H1 H2. unfold join_be. rewrite lor_shiftl_add by (cbn; lia). reflexivity.
Qed.

Lemma join_surrogates_range (h l : Z) :
  0x10000 <= join_surrogates h l <= 0x10FFFF.
Proof.
  unfold join_surrogates. change 0x3FF with (Z.ones 10).
  rewrite !land_mod by lia. change (2 ^ 10) with 1024.
  rewrite lor_shiftl_add.
  - change (2 ^ 10) with 1024. Z.div_mod_to_equations. lia.
  - lia.
  - change (2 ^ 10) with 1024. Z.div_mod_to_equations. lia.
Qed.

Lemma byte_range_cons (x : Z) (b : pybytes) :
  byte_range (x :: b) = true <-> (0 <= x < 256 /\ byte_range b = true).
Proof.
  unfold byte_range. simpl. rewrite andb_true_iff, andb_true_iff, Z.leb_le, Z.ltb_lt.
  tauto.
Qed.

Lemma valid_text_cons (c : Z) (s : pystr) :
  valid_text (c :: s) = true <->
  (0 <= c <= 0x10FFFF /\ is_surrogate c = false /\ valid_text s = true).
Proof.
  unfold valid_text. simpl.
  rewrite !andb_true_iff, Z.leb_le, Z.leb_le, negb_true_iff. tauto.
Qed.

Lemma not_surrogate_above (c : Z) : 0x10000 <= c -> is_surrogate c = false.
Proof.
  intros Hc. unfold is_surrogate.
  apply andb_false_iff. right. apply Z.leb_gt. lia.
Qed.

(** Induction along the recursion of [decode_utf16be_ignore]. *)
Lemma decode_utf16be_ignore_ind (P : pybytes -> Prop) :
  P [] -> (forall x, P [x]) ->
  (forall b1 b2 rest, (forall r, List.length r <= List.length rest -> P r)%nat ->
     P (b1 :: b2 :: rest)) ->
  forall b, P b.
Proof.
  intros H0 H1 H2 b.
  assert (Hn : forall n b, (List.length b <= n)%nat -> P b).
  { induction n as [|n IH]; intros b' Hl.
    - destruct b'; [exact H0 | simpl in Hl; lia].
    - destruct b' as [|x [|y rest]]; [exact H0 | apply H1 |].
      apply H2. intros r Hr. apply IH. simpl in Hl. lia. }
  apply (Hn (List.length b)). lia.
Qed.

(** X1.  The UTF-16-BE decoding with [errors='ignore'] of any bytes value
    is a string of Unicode scalar values: it never yields a lone surrogate
    nor a code point above U+10FFFF. *)
Theorem decode_utf16be_ignore_valid (b : pybytes) :
  byte_range b = true -> valid_text (decode_utf16be_ignore b) = true.
Proof.
  induction b as [| x | b1 b2 rest IH] using decode_utf16be_ignore_ind;
    intros Hb; [reflexivity | reflexivity |].
  apply byte_range_cons in Hb as [H1 Hb]. apply byte_range_cons in Hb as [H2 Hb].
  simpl decode_utf16be_ignore. rewrite (join_be_bytes b1 b2 H1 H2).
  destruct (is_surrogate (b1 * 256 + b2)) eqn:Hs; simpl negb; cbv iota.
  - destruct (is_high_surrogate (b1 * 256 + b2)); simpl negb; cbv iota.
    + destruct rest as [|b3 [|b4 rest']]; [reflexivity | reflexivity |].
      apply byte_range_cons in Hb as [H3 Hb']. apply byte_range_cons in Hb' as [H4 Hb'].
      destruct (is_low_surrogate (join_be b3 b4)).
      * apply valid_text_cons. pose proof (join_surrogates_range (b1 * 256 + b2) (join_be b3 b4)).
        split; [lia|]. split; [apply not_surrogate_above; lia|].
        apply IH; [simpl; lia | exact Hb'].
      * apply IH; [lia|]. apply byte_range_cons. split; [exact H3|].
        apply byte_range_cons. split; assumption.
    + apply IH; [lia | exact Hb].
  - apply valid_text_cons. split; [lia|]. split; [exact Hs|]. apply IH; [lia | exact Hb].
Qed.

Lemma decode_utf16be_ignore_valid_witness :
  byte_range [0xDC; 0x00; 0x00; 0x41] = true /\
  valid_text (decode_utf16be_ignore [0xDC; 0x00; 0x00; 0x41]) = true.
Proof.
  split; [reflexivity|]. apply decode_utf16be_ignore_valid. reflexivity.
Defined.

(** X2.  The UTF-16-BE decoding yields at most one character per two bytes
    of payload. *)
Theorem decode_utf16be_ignore_length (b : pybytes) :
  (2 * List.length (decode_utf16be_ignore b) <= List.length b)%nat.
Proof.
  induction b as [| x | b1 b2 rest IH] using decode_utf16be_ignore_ind;
    [simpl; lia | simpl; lia |].
  simpl decode_utf16be_ignore.
  destruct (negb (is_surrogate (join_be b1 b2))).
  - simpl. specialize (IH rest (le_n _)). lia.
  - destruct (negb (is_high_surrogate (join_be b1 b2))).
    + specialize (IH rest (le_n _)). simpl. lia.
    + destruct rest as [|b3 [|b4 rest']]; [simpl; lia | simpl; lia |].
      destruct (is_low_surrogate (join_be b3 b4)).
      * specialize (IH rest' ltac:(simpl; lia)). simpl in *. lia.
      * specialize (IH (b3 :: b4 :: rest') (le_n _)). simpl in *. lia.
Qed.

Lemma unit_be_bytes (u : Z) : 0 <= u < 65536 -> byte_range (unit_be u) = true.
Proof.
  intros Hu. pose proof (unit_be_range u Hu) as HF.
  unfold byte_range. apply forallb_forall. intros x Hx.
  rewrite Forall_forall in HF. specialize (HF x Hx).
  apply andb_true_iff. split; [apply Z.leb_le | apply Z.ltb_lt]; lia.
Qed.

Lemma byte_range_app (b1 b2 : pybytes) :
  byte_range (b1 ++ b2) = byte_range b1 && byte_range b2.
Proof. unfold byte_range. apply forallb_app. Qed.

Lemma count_astral_cons (c : Z) (s : pystr) :
  count_astral (c :: s) = ((if (0x10000 <=? c)%Z then 1 else 0) + count_astral s)%nat.
Proof. unfold count_astral. simpl. destruct (0x10000 <=? c); reflexivity. Qed.

(** X3.  For a string of scalar values, [str.encode('utf-16-be')] yields
    bytes in [0, 255], two per code point up to U+FFFF and four per code
    point above it. *)
Theorem encode_utf16be_shape (s : pystr) (b : pybytes) :
  valid_text s = true -> encode_utf16be s = Some b ->
  byte_range b = true /\
  List.length b = (2 * List.length s + 2 * count_astral s)%nat.
Proof.
  revert b. induction s as [|c s IH]; intros b Hv He.
  - simpl in He. injection He as <-. split; reflexivity.
  - apply valid_text_cons in Hv as [Hc [Hns Hv]].
    change (encode_utf16be (c :: s)) with
      (match encode_utf16be s with
       | None => None
       | Some rest =>
           if is_surrogate c then None
           else if c <? 0x10000 then Some (unit_be c ++ rest)
           else Some (unit_be (high_surrogate c) ++ unit_be (low_surrogate c) ++ rest)
       end) in He.
    destruct (encode_utf16be s) as [rest|] eqn:Hr; [|discriminate].
    rewrite Hns in He. destruct (IH rest Hv eq_refl) as [IHb IHl].
    rewrite count_astral_cons.
    destruct (c <? 0x10000) eqn:Hbmp.
    + assert (b = unit_be c ++ rest) as -> by congruence. apply Z.ltb_lt in Hbmp.
      replace (0x10000 <=? c) with false by (symmetry; apply Z.leb_gt; lia).
      rewrite byte_range_app, unit_be_bytes, IHb by lia. split; [reflexivity|].
      rewrite length_app, IHl. simpl. lia.
    + assert (b = unit_be (high_surrogate c) ++ unit_be (low_surrogate c) ++ rest)
        as -> by congruence.
      apply Z.ltb_ge in Hbmp.
      replace (0x10000 <=? c) with true by (symmetry; apply Z.leb_le; lia).
      destruct (high_surrogate_value c) as [_ Hh]; [lia|].
      destruct (low_surrogate_value c) as [_ Hl].
      rewrite !byte_range_app, !unit_be_bytes, IHb by lia. split; [reflexivity|].
      rewrite !length_app, IHl. simpl. lia.
Qed.

Lemma encode_utf16be_shape_witness :
  byte_range [0; 0x48; 0xD8; 0x3D; 0xDE; 0x00]%Z = true /\
  List.length [0; 0x48; 0xD8; 0x3D; 0xDE; 0x00]%Z =
    (2 * List.length [0x48; 0x1F600]%Z + 2 * count_astral [0x48; 0x1F600]%Z)%nat.
Proof.
  apply (encode_utf16be_shape [0x48; 0x1F600]); reflexivity.
Defined.

(** X4.  [str.encode('utf-16-be')] fails exactly on a string holding a surrogate
    code point. *)
Theorem encode_utf16be_none (s : pystr) :
  encode_utf16be s = None <-> existsb is_surrogate s = true.
Proof.
  induction s as [|c s IH]; simpl.
  - split; discriminate.
  - destruct (encode_utf16be s) as [rest|].
    + destruct (is_surrogate c); simpl.
      * split; reflexivity.
      * destruct (c <? 0x10000); split; intros H;
          try discriminate; apply IH in H; discriminate.
    + rewrite (proj1 IH eq_refl), orb_true_r. split; reflexivity.
Qed.

(** ** The session *)

(** X6.  [send_sms] never raises and never unbinds or disconnects anything.  It
    returns [True] exactly when it made one [client.send_message] call and
    that call succeeded; it makes at most one.  A client not bound as
    transceiver is replaced by a fresh one, whose state is the outcome of the
    reconnect, even when the send then fails. *)
Theorem send_sms_never_raises (o : connect_outcome) (send_ok : bool)
    (phone_number message : pystr) (h : handle) :
  let '(r, h', t) := send_sms o send_ok phone_number message h in
  (exists ok, r = Ok ok /\ (ok = true <-> count_ev is_send_message t = 1%nat /\ send_ok = true)) /\
  (count_ev is_send_message t <= 1)%nat /\
  count_ev is_teardown t = 0%nat /\
  h' = if client_bound_trx h then h
       else Some (match o with Connected => BOUND_TRX | ConnectFails => CLOSED
                               | BindFails => OPEN end).
Proof.
  unfold send_sms.
  destruct (encode_utf16be message) as [b|], h as [[]|], o, send_ok; cbn;
    (split; [eexists; split; [reflexivity|]; split;
             [intros H; try discriminate H; split; reflexivity
             |intros [H1 H2]; try discriminate H1; try discriminate H2; reflexivity]|]);
    repeat split; lia.
Qed.

(** X7.  A text that cannot be encoded (it holds a lone surrogate) is never
    sent and [send_sms] returns [False]; the reconnect of an unbound client
    still happens first, since the text is encoded only after it. *)
Theorem send_sms_unencodable (o : connect_outcome) (send_ok : bool)
    (phone_number message : pystr) (h : handle) :
  encode_utf16be message = None ->
  let '(r, _, t) := send_sms o send_ok phone_number message h in
  r = Ok false /\ count_ev is_send_message t = 0%nat /\
  count_ev is_client_new t = (if client_bound_trx h then 0 else 1)%nat.
Proof.
  intros He. unfold send_sms. rewrite He.
  destruct h as [[]|], o, send_ok; cbn; repeat split.
Qed.

Lemma send_sms_unencodable_witness :
  let '(r, _, t) := send_sms Connected true [49] [0xD800] None in
  r = Ok false /\ count_ev is_send_message t = 0%nat /\
  count_ev is_client_new t = (if client_bound_trx None then 0 else 1)%nat.
Proof.
  exact (send_sms_unencodable Connected true [49] [0xD800] None eq_refl).
Defined.

(** ** The consumer *)

Lemma consumer_iteration_empty (ok : bool) :
  consumer_iteration ok [] = (Ok tt, [], [EvSleep 100]).
Proof. destruct ok; reflexivity. Qed.

Lemma consumer_iteration_forward (m : msg) (q : list msg) :
  consumer_iteration true (m :: q) =
    (Ok tt, q, [EvGet m; EvLog Debug; EvForward m; EvTaskDone]).
Proof. destruct m; reflexivity. Qed.

Lemma process_incoming_messages_cons (ok : bool) (oks : list bool) (q : list msg) :
  process_incoming_messages (ok :: oks) q =
    let '(r1, q1, t1) := consumer_iteration ok q in
    match r1 with
    | Ok _ => let '(r2, q2, t2) := process_incoming_messages oks q1 in (r2, q2, t1 ++ t2)
    | Exn e => (Exn e, q1, t1)
    end.
Proof.
  cbn [process_incoming_messages]. unfold bind at 1.
  destruct (consumer_iteration ok q) as [[[[]|e] q1] t1]; reflexivity.
Qed.

Lemma process_incoming_messages_idle (oks : list bool) :
  process_incoming_messages oks [] = (Ok tt, [], map (fun _ => EvSleep 100) oks).
Proof.
  induction oks as [|ok oks IH]; [reflexivity|].
  rewrite process_incoming_messages_cons, consumer_iteration_empty, IH. reflexivity.
Qed.

(** X9.  On an empty queue the consumer only polls: every iteration times out
    on [get], sleeps 100 ms and goes on, and nothing is raised. *)
Theorem process_incoming_messages_empty (oks : list bool) :
  process_incoming_messages oks [] = (Ok tt, [], map (fun _ => EvSleep 100) oks).
Proof.
  induction oks as [|ok oks IH]; [reflexivity|].
  rewrite process_incoming_messages_cons, consumer_iteration_empty, IH. reflexivity.
Qed.

(** X10.  When every forward succeeds and there are enough iterations, the
    consumer forwards the whole queue in order, marks each message done once,
    empties the queue and then polls. *)
Theorem process_incoming_messages_drains (oks : list bool) (q : list msg) :
  (forall ok, In ok oks -> ok = true) ->
  (List.length q <= List.length oks)%nat ->
  process_incoming_messages oks q =
    (Ok tt, [],
     flat_map (fun m => [EvGet m; EvLog Debug; EvForward m; EvTaskDone]) q ++
     map (fun _ => EvSleep 100) (skipn (List.length q) oks)).
Proof.
  revert oks. induction q as [|m q IH]; intros oks Hok Hl.
  - apply process_incoming_messages_idle.
  - destruct oks as [|ok oks]; [simpl in Hl; lia|].
    rewrite (Hok ok (or_introl eq_refl)).
    rewrite process_incoming_messages_cons, consumer_iteration_forward.
    rewrite IH; [reflexivity | |].
    + intros ok' Hi. apply Hok. right. exact Hi.
    + simpl in Hl. lia.
Qed.

Lemma process_incoming_messages_drains_witness :
  process_incoming_messages [true; true; true] [([49], [72])] =
    (Ok tt, [], [EvGet ([49], [72]); EvLog Debug; EvForward ([49], [72]); EvTaskDone;
                 EvSleep 100; EvSleep 100]).
Proof.
  apply (process_incoming_messages_drains [true; true; true] [([49], [72])]).
  - intros ok Hi. simpl in Hi. destruct Hi as [<-|[<-|[<-|[]]]]; reflexivity.
  - simpl. lia.
Defined.

(** ** The receive callback *)

(** X11.  The callback's [except] clause never logs: whenever the [try] block
    raises (a [deliver_sm] whose [source_addr] or [short_message] is
    [None]), the clause raises in turn, [UnboundLocalError] when
    [source_addr] is [None] and [AttributeError] from [raw_message.hex()]
    otherwise, with the queue unchanged and nothing logged.  Every other
    frame is handled without exception. *)
Theorem handle_incoming_sms_exceptions (pdu : DeliverSM.t) (q : list msg) :
  let '(r, q', t) := handle_incoming_sms pdu q in
  count_ev (fun ev => match ev with EvLog Error => true | _ => false end) t = 0%nat /\
  if String.eqb (DeliverSM.command pdu) "deliver_sm" then
    match DeliverSM.source_addr pdu, DeliverSM.short_message pdu with
    | None, _ => r = Exn UnboundLocalError /\ q' = q /\ t = []
    | Some _, None => r = Exn AttributeError /\ q' = q /\ t = []
    | Some _, Some _ => r = Ok tt
    end
  else r = Ok tt.
Proof.
  destruct (String.eqb (DeliverSM.command pdu) "deliver_sm") eqn:Hc.
  - apply String.eqb_eq in Hc.
    destruct (DeliverSM.source_addr pdu) as [src|] eqn:Hs;
      [destruct (DeliverSM.short_message pdu) as [raw|] eqn:Hr|].
    + rewrite (handle_incoming_sms_deliver pdu q src raw Hc Hs Hr).
      split; reflexivity.
    + destruct pdu as [cmd sa sm dc]; simpl in *; subst.
      repeat split.
    + destruct pdu as [cmd sa sm dc]; simpl in *; subst.
      repeat split.
  - destruct pdu as [cmd sa sm dc]; simpl in *.
    unfold handle_incoming_sms, try_except, handle_incoming_body; simpl.
    rewrite Hc. split; reflexivity.
Qed.

(** ** Listener and consumer *)

(** X12.  Once the consumer has died, it stays dead: deliveries only append to
    the queue, and nothing is taken or forwarded any more. *)
Theorem run_bridge_dead_consumer (acts : list act) (q : list msg) :
  let '(b', t) := run_bridge acts {| message_queue := q; consumer_alive := false |} in
  consumer_alive b' = false /\ message_queue b' = q ++ puts t /\
  gets t = [] /\ forwards t = [].
Proof.
  revert q. induction acts as [|a acts IH]; intros q.
  - simpl. rewrite app_nil_r. repeat split.
  - destruct a as [pdu | ok]; simpl; [|apply IH].
    pose proof (handle_incoming_sms_queue pdu q) as Hh.
    destruct (handle_incoming_sms pdu q) as [[r q1] t1].
    destruct Hh as [Hq [Hg Hf]].
    specialize (IH q1).
    destruct (run_bridge acts _) as [b' t'].
    destruct IH as [IHa [IHq [IHg IHf]]].
    rewrite puts_app, gets_app, forwards_app, Hg, Hf, IHg, IHf, IHq, Hq, app_assoc.
    repeat split; assumption.
Qed.

(** X13.  The consumer only dies on a failed forward: if every consumer
    iteration's [bot.send_message] succeeds, a live consumer stays live. *)
Theorem run_bridge_consumer_alive (acts : list act) (b : bridge) :
  consumer_alive b = true ->
  (forall ok, In (ConsumerStep ok) acts -> ok = true) ->
  consumer_alive (fst (run_bridge acts b)) = true.
Proof.
  revert b. induction acts as [|a acts IH]; intros b Ha Hok; [exact Ha|].
  destruct a as [pdu | ok]; simpl.
  - destruct (handle_incoming_sms pdu (message_queue b)) as [[r q] t].
    match goal with
    | |- context [run_bridge acts ?b0] =>
        specialize (IH b0); destruct (run_bridge acts b0) as [b' t'] eqn:E
    end.
    apply IH; [exact Ha|]. intros ok Hi. apply Hok. right. exact Hi.
  - rewrite Ha. rewrite (Hok ok (or_introl eq_refl)).
    assert (Hr : exists q' t, consumer_iteration true (message_queue b) = (Ok tt, q', t)).
    { destruct (message_queue b) as [|m q]; eexists _, _;
        [apply consumer_iteration_empty | apply consumer_iteration_forward]. }
    destruct Hr as [q' [t Hr]]. rewrite Hr.
    match goal with
    | |- context [run_bridge acts ?b0] =>
        specialize (IH b0); destruct (run_bridge acts b0) as [b' t'] eqn:E
    end.
    apply IH; [reflexivity|]. intros ok' Hi. apply Hok. right. exact Hi.
Qed.

Lemma run_bridge_consumer_alive_witness :
  consumer_alive (fst (run_bridge [ConsumerStep true; ConsumerStep true]
                         {| message_queue := [([49], [72])]; consumer_alive := true |})) = true.
Proof.
  apply run_bridge_consumer_alive; [reflexivity|].
  intros ok Hi. simpl in Hi.
  destruct Hi as [Hi|[Hi|[]]]; injection Hi as <-; reflexivity.
Defined.

(** ** The keep-alive monitor *)

Lemma keep_alive_tick_unbind_fails (e : tick_env) (st : cstate) :
  client_live (Some st) = false -> drift e st = st -> unbind_ok e = false ->
  keep_alive_tick e (Some st) =
    (Ok tt, Some st, [EvLog Warning; EvUnbind; EvLog Error; EvSleep 5000; EvSleep 30000]).
Proof.
  intros Hl Hd Hu. rewrite keep_alive_tick_unfold.
  destruct e as [d pr ub dk rc]; simpl in Hd, Hu |- *. rewrite Hd. subst ub.
  destruct st; try discriminate Hl; reflexivity.
Qed.

(** X14.  A failing [client.unbind()] blocks every reconnect: when the client's
    state is neither [OPEN] nor [BOUND_TRX] and stays so, and unbinding it
    keeps failing, every tick is exactly the reconnect warning, the unbind
    attempt, the error log, the 5 s backoff and the 30 s sleep; no new client
    is ever created and the dead one stays in place. *)
Theorem smpp_keep_alive_unbind_blocks (es : list tick_env) (st : cstate) :
  client_live (Some st) = false ->
  (forall e, In e es -> drift e st = st /\ unbind_ok e = false) ->
  smpp_keep_alive es (Some st) =
    (Ok tt, Some st,
     List.concat (map (fun _ => [EvLog Warning; EvUnbind; EvLog Error; EvSleep 5000; EvSleep 30000])
                      es)).
Proof.
  intros Hl. induction es as [|e es IH]; intros Hes; [reflexivity|].
  rewrite smpp_keep_alive_cons.
  destruct (Hes e (or_introl eq_refl)) as [Hd Hu].
  rewrite (keep_alive_tick_unbind_fails e st Hl Hd Hu).
  rewrite (IH (fun e' He' => Hes e' (or_intror He'))). reflexivity.
Qed.

Lemma smpp_keep_alive_unbind_blocks_witness :
  let stuck := {| drift := fun st => st; probe_ok := true; unbind_ok := false;
                  disconnect_ok := true; reconnect := Connected |} in
  smpp_keep_alive [stuck; stuck] (Some CLOSED) =
    (Ok tt, Some CLOSED,
     List.concat (map (fun _ => [EvLog Warning; EvUnbind; EvLog Error; EvSleep 5000; EvSleep 30000])
                      [stuck; stuck])).
Proof.
  intros stuck. apply smpp_keep_alive_unbind_blocks; [reflexivity|].
  intros e He. simpl in He. destruct He as [<-|[<-|[]]]; split; reflexivity.
Defined.

Lemma keep_alive_tick_some (e : tick_env) (h : handle) :
  let '(_, h', _) := keep_alive_tick e h in h' <> None.
Proof.
  rewrite keep_alive_tick_unfold.
  destruct e as [d pr ub dk rc].
  destruct h as [st|]; cbn [option_map drift];
    [destruct (d st)|]; destruct pr, ub, dk, rc; cbn; discriminate.
Qed.

(** X15.  After its first tick the monitor always leaves a client object in the
    global, whatever failed: the handle is never [None] again. *)
Theorem smpp_keep_alive_client_set (e : tick_env) (es : list tick_env) (h : handle) :
  let '(_, h', _) := smpp_keep_alive (e :: es) h in h' <> None.
Proof.
  revert e h. induction es as [|e' es IH]; intros e h.
  - rewrite smpp_keep_alive_cons. pose proof (keep_alive_tick_some e h) as Hs.
    destruct (keep_alive_tick e h) as [[r1 h1] t1]. simpl. exact Hs.
  - rewrite smpp_keep_alive_cons.
    destruct (keep_alive_tick e h) as [[r1 h1] t1].
    specialize (IH e' h1).
    destruct (smpp_keep_alive (e' :: es) h1) as [[r2 h2] t2]. exact IH.
Qed.

